(** * presto-template-starter-go: Markdown-with-frontmatter to Typst

    A shallow embedding of [main.go]: the frontmatter splitter
    ([splitFrontmatter]), the page set-up writer ([writePageSetup]), the
    tree renderer ([renderBody]) and the driver ([main]), followed by the
    properties of the specification that were checked against them.

    Go values are modelled as follows.
    - [[]byte] and [string] are [list byte]; [nil] and the empty slice are
      told apart by an [option] where the source returns [nil].
    - [int] is [Z]; lengths never come near 2^63, so no wrap-around is
      written out.
    - Indexing and slicing out of range panic in Go; they return [Panic]
      here and the callers are shown never to reach it.
    - The [bufio.Writer] is the list of bytes written so far; every write
      appends. *)

From Stdlib Require Import ZArith List Bool Lia.
From Stdlib Require Import Strings.Byte Strings.String Numbers.DecimalString.
Import ListNotations.

Local Open Scope Z_scope.
Local Set Warnings "-register-all".

(** ** Bytes *)

Definition bytes := list byte.

Definition LF : byte := x0a.
Definition CR : byte := x0d.
Definition QUOTE : byte := x22.
Definition BACKSLASH : byte := x5c.

(** [lit "abc"] is the byte slice of a source literal. *)
Definition lit (s : string) : bytes := list_byte_of_string s.

Definition len (s : bytes) : Z := Z.of_nat (List.length s).

(** ** Run-time panics *)

Inductive result (A : Type) : Type :=
| Ok (a : A)
| Panic.
Arguments Ok {A} a.
Arguments Panic {A}.

Definition bind {A B : Type} (r : result A) (k : A -> result B) : result B :=
  match r with
  | Ok a => k a
  | Panic => Panic
  end.

Notation "x <- r ;; k" := (bind r (fun x => k))
  (at level 100, r at next level, right associativity).

(** [s[lo:]] *)
Definition slice_from (s : bytes) (lo : Z) : result bytes :=
  if (0 <=? lo) && (lo <=? len s) then Ok (skipn (Z.to_nat lo) s) else Panic.

(** [s[:hi]] *)
Definition slice_to (s : bytes) (hi : Z) : result bytes :=
  if (0 <=? hi) && (hi <=? len s) then Ok (firstn (Z.to_nat hi) s) else Panic.

(** [s[i]] *)
Definition index (s : bytes) (i : Z) : result byte :=
  if (0 <=? i) && (i <? len s) then
    match nth_error s (Z.to_nat i) with
    | Some c => Ok c
    | None => Panic
    end
  else Panic.

(** The guarded test [i < len(s) && s[i] == c]; the index is only
    evaluated when the bound holds. *)
Definition byte_at_is (s : bytes) (i : Z) (c : byte) : result bool :=
  if i <? len s then (x <- index s i ;; Ok (Byte.eqb x c)) else Ok false.

(** A [nil] slice has length zero and no bytes. *)
Definition nil_as_empty (b : option bytes) : bytes :=
  match b with
  | Some x => x
  | None => []
  end.

(** ** The [strings] package *)

Module strings.

(** [strings.HasPrefix] *)
Fixpoint HasPrefix (s prefix : bytes) {struct prefix} : bool :=
  match prefix with
  | [] => true
  | p :: prefix' =>
      match s with
      | [] => false
      | c :: s' => Byte.eqb c p && HasPrefix s' prefix'
      end
  end.

(** [strings.Index]: the index of the first instance of [substr] in [s],
    or [-1]. *)
Fixpoint Index (s substr : bytes) : Z :=
  if HasPrefix s substr then 0
  else
    match s with
    | [] => -1
    | _ :: s' =>
        let r := Index s' substr in
        if r <? 0 then -1 else r + 1
    end.

(** [strings.TrimRight] with a one-byte ASCII cutset, which the library
    dispatches to [trimRightByte]: drop every trailing [c]. *)
Fixpoint trimRightByte (s : bytes) (c : byte) : bytes :=
  match s with
  | [] => []
  | x :: s' =>
      match trimRightByte s' c with
      | [] => if Byte.eqb x c then [] else [x]
      | t => x :: t
      end
  end.

End strings.

(** ** [splitFrontmatter] *)

Definition OPEN_LF : bytes := Eval cbv in lit "---" ++ [LF].
Definition OPEN_CRLF : bytes := Eval cbv in lit "---" ++ [CR; LF].
Definition CLOSE : bytes := Eval cbv in LF :: lit "---".

Definition splitFrontmatter (data : bytes) : result (option bytes * bytes) :=
  let s := data in
  if negb (strings.HasPrefix s OPEN_LF) && negb (strings.HasPrefix s OPEN_CRLF)
  then Ok (None, data)
  else
    rest <- slice_from s 4 ;;
    let idx := strings.Index rest CLOSE in
    if idx <? 0 then Ok (None, data)
    else
      fm <- slice_to rest idx ;;
      let bodyStart := idx + 4 in
      isLF <- byte_at_is rest bodyStart LF ;;
      bodyStart' <-
        (if isLF then Ok (bodyStart + 1)
         else
           isCR <- byte_at_is rest bodyStart CR ;;
           if isCR then
             let bodyStart := bodyStart + 1 in
             isLF2 <- byte_at_is rest bodyStart LF ;;
             if isLF2 then Ok (bodyStart + 1) else Ok bodyStart
           else Ok bodyStart) ;;
      body <- slice_from rest bodyStart' ;;
      Ok (Some fm, body).

(** *** The header shape in the specification's words

    "Begins with a line equal to [---] (allowing either line-ending
    convention)": the length of that opening line, when there is one. *)
Definition DELIM : bytes := Eval cbv in lit "---".

Definition opening_line (data : bytes) : option nat :=
  if strings.HasPrefix data OPEN_LF then Some 4%nat
  else if strings.HasPrefix data OPEN_CRLF then Some 5%nat
  else None.

(** A line starts at offset [p] when [p] is the start of the input or
    follows a line feed; it begins with [pre] when the bytes from [p] do. *)
Definition line_begins_with (data : bytes) (p : nat) (pre : bytes) : bool :=
  match p with
  | O => true
  | S q =>
      match nth_error data q with
      | Some c => Byte.eqb c LF
      | None => false
      end
  end && strings.HasPrefix (skipn p data) pre.

(** "Contains a later line beginning with [---]": some line after the
    opening delimiter line begins with the delimiter. *)
Definition later_delim_line (data : bytes) : bool :=
  match opening_line data with
  | None => false
  | Some n =>
      existsb (fun p => (n <=? p)%nat && line_begins_with data p DELIM)
              (seq 0 (S (List.length data)))
  end.

(** The test of line 82, read positively. *)
Definition has_opening (data : bytes) : bool :=
  strings.HasPrefix data OPEN_LF || strings.HasPrefix data OPEN_CRLF.

(** What lines 95 to 102 of the source skip after the closing [---]: one
    line feed, or one carriage return and the line feed after it, if any. *)
Definition consume_newline (t : bytes) : bytes :=
  match t with
  | [] => []
  | x :: t' =>
      if Byte.eqb x LF then t'
      else if Byte.eqb x CR then
             match t' with
             | [] => []
             | y :: t'' => if Byte.eqb y LF then t'' else t'
             end
           else t
  end.

(** The input rebuilt from a metadata block and a body:
    [---\n], the metadata, [\n---\n], the body. *)
Definition reconstruct (m b : bytes) : bytes :=
  OPEN_LF ++ m ++ (CLOSE ++ [LF]) ++ b.

(** ** The [fmt] package and the writer *)

Module fmt.

(** [fmt.Fprint(w, s)] and [w.Write(s)] *)
Definition Fprint (w s : bytes) : bytes := w ++ s.

(** [fmt.Fprintln(w, s)]; [fmt.Fprintln(w)] is [Fprintln w []]. *)
Definition Fprintln (w s : bytes) : bytes := w ++ s ++ [LF].

(** The verb [%s] on a string: its bytes, unchanged. *)
Definition verb_s (s : bytes) : bytes := s.

(** The verb [%d] on an [int]: signed decimal. *)
Definition verb_d (z : Z) : bytes := lit (NilZero.string_of_int (Z.to_int z)).

End fmt.

(** ** The parsed tree *)

(** Modelled from the spec: the node types belong to the parser library
    and are not under src/.  Section 3 lists the kinds the renderer maps
    and section 4.4 the ones it drops; each kind carries what the source
    reads from it: [Text] the bytes of its segment of the source and its
    soft-line-break flag, [CodeSpan] the bytes [node.Text(source)],
    [FencedCodeBlock] the bytes of each of its lines, [Heading] and
    [Emphasis] their level (an emphasis is strong at level two).
    [Extension] stands for any kind contributed by a parser extension
    (tables and the like). *)
Inductive NodeKind : Type :=
| Document
| TextBlock
| Paragraph
| Heading (Level : Z)
| ThematicBreak
| CodeBlock
| FencedCodeBlock (Lines : list bytes)
| Blockquote
| List
| ListItem
| HTMLBlock
| Text (Segment : bytes) (SoftLineBreak : bool)
| String
| CodeSpan (text : bytes)
| Emphasis (Level : Z)
| Link
| Image
| AutoLink
| RawHTML
| Extension (name : string).

(** Modelled from the spec: a node is its kind and its ordered children
    (section 3). *)
Inductive Node : Type :=
| node (kind : NodeKind) (children : list Node).

Definition Kind (n : Node) : NodeKind := match n with node k _ => k end.

(** The kinds with a [case] in the type switch of [renderBody]. *)
Definition has_mapping (k : NodeKind) : bool :=
  match k with
  | Heading _ | Paragraph | Text _ _ | List | ListItem | Emphasis _
  | ThematicBreak | CodeSpan _ | FencedCodeBlock _ => true
  | _ => false
  end.

(** Modelled from the spec: the status a walker hands back to
    [ast.Walk]; the source only ever returns [ast.WalkContinue]. *)
Inductive WalkStatus : Type := WalkStop | WalkSkipChildren | WalkContinue.

Module ast.

Section Walk.
Context {St Err : Type}.
Variable walker : Node -> bool -> St -> St * WalkStatus * option Err.

Definition halted (status : WalkStatus) (err : option Err) : bool :=
  match err, status with
  | Some _, _ => true
  | None, WalkStop => true
  | None, _ => false
  end.

(** Modelled from the spec: the loop of [ast.Walk] over the children of
    a node, in their given order (section 4.4); it ends at the first child
    whose walk halted. *)
Fixpoint walkChildren
  (walkChild : Node -> St -> St * WalkStatus * option Err)
  (cs : list Node) (st : St) {struct cs} : St * WalkStatus * option Err :=
  match cs with
  | [] => (st, WalkContinue, None)
  | c :: cs' =>
      let '(st', s, e) := walkChild c st in
      if halted s e then (st', WalkStop, e)
      else walkChildren walkChild cs' st'
  end.

(** Modelled from the spec: [ast.Walk] belongs to the parser library and
    is not under src/.  Section 4.4 fixes its order: the walker is called
    on a node with [entering = true], then the children are walked in
    their given order, then the walker is called with [entering = false].
    The status and error the walker returns are threaded as the library
    does: an error or [WalkStop] ends the walk at once and
    [WalkSkipChildren] leaves the children out. *)
Fixpoint walkHelper (n : Node) (st : St) : St * WalkStatus * option Err :=
  match n with
  | node _ cs =>
      let '(st1, status, err) := walker n true st in
      if halted status err then (st1, status, err)
      else
        let '(st2, status2, err2) :=
          match status with
          | WalkSkipChildren => (st1, WalkContinue, None)
          | _ => walkChildren walkHelper cs st1
          end in
        if halted status2 err2 then (st2, WalkStop, err2)
        else
          let '(st3, status3, err3) := walker n false st2 in
          if halted status3 err3 then (st3, status3, err3)
          else (st3, WalkContinue, None)
  end.

Definition Walk (n : Node) (st : St) : St * option Err :=
  let '(st', _, err) := walkHelper n st in (st', err).
End Walk.

End ast.

(** A walker that never stops, skips or fails only acts through the
    state: [visit] is its effect at one event and [traverse] the effect of
    the whole walk. *)
Section Traverse.
Context {St Err : Type}.
Variable walker : Node -> bool -> St -> St * WalkStatus * option Err.

Definition visit (n : Node) (entering : bool) (st : St) : St :=
  fst (fst (walker n entering st)).

Fixpoint traverse (n : Node) (st : St) : St :=
  match n with
  | node _ cs =>
      visit n false
        (fold_left (fun st c => traverse c st) cs (visit n true st))
  end.
End Traverse.

(** ** [renderBody] *)

Definition FENCE : bytes := Eval cbv in lit "```".

(** The function literal passed to [ast.Walk], with the writer threaded. *)
Definition walker (n : Node) (entering : bool) (w : bytes)
  : bytes * WalkStatus * option bytes :=
  let w' :=
    match Kind n with
    | Heading Level =>
        if entering then
          (* "#heading(level: %d)[" *)
          fmt.Fprint w (lit "#heading(level: " ++ fmt.verb_d Level ++ lit ")[")
        else
          fmt.Fprintln (fmt.Fprintln w (lit "]")) []
    | Paragraph =>
        if negb entering then fmt.Fprintln (fmt.Fprintln w []) [] else w
    | Text Segment SoftLineBreak =>
        if entering then
          let w1 := fmt.Fprint w Segment in
          if SoftLineBreak then fmt.Fprintln w1 [] else w1
        else w
    | List =>
        if negb entering then fmt.Fprintln w [] else w
    | ListItem =>
        if entering then fmt.Fprint w (lit "- ") else fmt.Fprintln w []
    | Emphasis Level =>
        if Level =? 2 then
          if entering then fmt.Fprint w (lit "#strong[")
          else fmt.Fprint w (lit "]")
        else
          if entering then fmt.Fprint w (lit "#emph[")
          else fmt.Fprint w (lit "]")
    | ThematicBreak =>
        if entering then
          fmt.Fprintln (fmt.Fprintln w (lit "#line(length: 100%)")) []
        else w
    | CodeSpan text =>
        if entering then
          (* "#raw(\"%s\")" *)
          fmt.Fprint w (lit "#raw(" ++ [QUOTE] ++ fmt.verb_s text
                          ++ [QUOTE] ++ lit ")")
        else w
    | FencedCodeBlock Lines =>
        if entering then
          let buf := fold_left (fun buf line => buf ++ line) Lines [] in
          let content := strings.trimRightByte buf LF in
          (* "```\n%s\n```\n\n" *)
          fmt.Fprint w (FENCE ++ [LF] ++ fmt.verb_s content ++ [LF]
                          ++ FENCE ++ [LF; LF])
        else w
    | _ => w
    end in
  (w', WalkContinue, None).

(** The walk of an already parsed tree. *)
Definition renderTree (w : bytes) (doc : Node) : bytes :=
  fst (ast.Walk walker doc w).

(** The bytes one event of the walk adds for a node of kind [k]. *)
Definition on_event (k : NodeKind) (entering : bool) : bytes :=
  visit walker (node k []) entering [].

(** The segments of the text runs of a tree, in document order: that of
    the node itself when it is a text run, then those of its children. *)
Fixpoint text_runs (n : Node) : list bytes :=
  match n with
  | node k cs =>
      match k with
      | Text Segment _ => [Segment]
      | _ => []
      end ++ flat_map text_runs cs
  end.

(** [in_order chunks out]: the chunks occur in [out] as they are, one
    after the other, with any bytes before, between and after them. *)
Fixpoint in_order (chunks : list bytes) (out : bytes) : Prop :=
  match chunks with
  | [] => True
  | c :: chunks' => exists a b, out = a ++ c ++ b /\ in_order chunks' b
  end.

(** The YAML frontmatter fields. *)
Record Frontmatter : Type := { Title : bytes }.

(** The command-line flags. *)
Record Flags : Type := { showManifest : bool; showExample : bool;
                         showVersion : bool }.

(** What a run leaves behind: the bytes on standard output and on
    standard error, and the exit status. *)
Record Process : Type := { Stdout : bytes; Stderr : bytes; ExitCode : Z }.

Section Program.

(** External collaborators: the Markdown parser, the YAML decoder (an
    error message or the decoded record), [strconv.Quote] behind the verb
    [%q], the embedded files and the version entry of the manifest as
    [fmt.Println] prints it, when the manifest decodes and has one. *)
Variable Parse : bytes -> Node.
Variable yamlUnmarshal : bytes -> bytes + Frontmatter.
Variable Quote : bytes -> bytes.
Variable manifestData exampleData : bytes.
Variable manifestVersion : option bytes.

Definition renderBody (w : bytes) (source : bytes) : bytes :=
  let doc := Parse source in
  renderTree w doc.

(** ** [writePageSetup] *)
Definition writePageSetup (w : bytes) (meta : Frontmatter) : bytes :=
  let w := fmt.Fprintln w (lit "#set page(paper: " ++ [QUOTE] ++ lit "a4"
                             ++ [QUOTE] ++ lit ")") in
  let w := fmt.Fprintln w (lit "#set text(font: " ++ [QUOTE] ++ lit "SimSun"
                             ++ [QUOTE] ++ lit ", size: 12pt, lang: "
                             ++ [QUOTE] ++ lit "zh" ++ [QUOTE] ++ lit ")") in
  let w := fmt.Fprintln w
             (lit "#set par(leading: 1.5em, first-line-indent: 2em)") in
  let w := fmt.Fprintln w [] in
  match Title meta with
  | [] => w
  | _ :: _ =>
      (* "#let title = %q\n" *)
      let w := fmt.Fprint w (lit "#let title = " ++ Quote (Title meta)
                               ++ [LF]) in
      let w := fmt.Fprintln w [] in
      (* "#align(center, text(size: 22pt, weight: \"bold\")[%s])\n" *)
      let w := fmt.Fprint w (lit "#align(center, text(size: 22pt, weight: "
                               ++ [QUOTE] ++ lit "bold" ++ [QUOTE] ++ lit ")["
                               ++ fmt.verb_s (Title meta) ++ lit "])"
                               ++ [LF]) in
      let w := fmt.Fprintln w (lit "#v(1em)") in
      fmt.Fprintln w []
  end.

(** ** [main] *)

(** [flags] are the flag values after [flag.Parse()] has returned; on an
    undefined or malformed flag, and on [-h], [flag.Parse] ends the process
    itself and nothing of [main] below line 35 runs: those runs are not
    runs of this function.  [stdin] is the result of
    [io.ReadAll(os.Stdin)]: the bytes read and the error, if any. *)
Definition main (flags : Flags) (stdin : bytes * option bytes)
  : result Process :=
  if showVersion flags then
    Ok {| Stdout := match manifestVersion with
                    | Some v => fmt.Fprintln [] v
                    | None => []
                    end;
          Stderr := []; ExitCode := 0 |}
  else if showManifest flags then
    Ok {| Stdout := manifestData; Stderr := []; ExitCode := 0 |}
  else if showExample flags then
    Ok {| Stdout := exampleData; Stderr := []; ExitCode := 0 |}
  else
    let '(input, err) := stdin in
    match err with
    | Some e =>
        Ok {| Stdout := [];
              Stderr := lit "error reading stdin: " ++ e ++ [LF];
              ExitCode := 1 |}
    | None =>
        split <- splitFrontmatter input ;;
        let '(fm, body) := split in
        (* var meta Frontmatter; if len(fm) > 0 { yaml.Unmarshal(fm, &meta) } *)
        let decoded :=
          if 0 <? len (nil_as_empty fm) then yamlUnmarshal (nil_as_empty fm)
          else inr {| Title := [] |} in
        match decoded with
        | inl e =>
            Ok {| Stdout := [];
                  Stderr := lit "error parsing frontmatter: " ++ e ++ [LF];
                  ExitCode := 1 |}
        | inr meta =>
            let w := [] in
            let w := writePageSetup w meta in
            let w := renderBody w body in
            Ok {| Stdout := w; Stderr := []; ExitCode := 0 |}
        end
    end.

End Program.

(** *** The escaping the specification asks of a code span

    "Escaped per the output format's string-literal rules": inside a
    quoted string of the output format a quote and a backslash are written
    with a backslash in front. *)
Definition escape_string_literal (s : bytes) : bytes :=
  flat_map (fun c =>
              if Byte.eqb c QUOTE || Byte.eqb c BACKSLASH
              then [BACKSLASH; c] else [c]) s.

(** *** The preamble, line by line *)

Definition unlines (ls : list bytes) : bytes :=
  flat_map (fun l => l ++ [LF]) ls.

Definition PAGE_SIZE : bytes :=
  lit "#set page(paper: " ++ [QUOTE] ++ lit "a4" ++ [QUOTE] ++ lit ")".
Definition TEXT_FONT : bytes :=
  lit "#set text(font: " ++ [QUOTE] ++ lit "SimSun" ++ [QUOTE]
    ++ lit ", size: 12pt, lang: " ++ [QUOTE] ++ lit "zh" ++ [QUOTE] ++ lit ")".
Definition PAR_STYLE : bytes :=
  lit "#set par(leading: 1.5em, first-line-indent: 2em)".
Definition BLANK : bytes := [].

Definition fixed_preamble : list bytes :=
  [PAGE_SIZE; TEXT_FONT; PAR_STYLE; BLANK].

Definition title_binding (quoted : bytes) : bytes :=
  lit "#let title = " ++ quoted.
Definition title_heading (title : bytes) : bytes :=
  lit "#align(center, text(size: 22pt, weight: " ++ [QUOTE] ++ lit "bold"
    ++ [QUOTE] ++ lit ")[" ++ title ++ lit "])".
Definition VSPACE : bytes := lit "#v(1em)".

Definition title_block (Quote : bytes -> bytes) (title : bytes) : list bytes :=
  [title_binding (Quote title); BLANK; title_heading title; VSPACE; BLANK].

Definition is_empty (s : bytes) : bool :=
  match s with
  | [] => true
  | _ :: _ => false
  end.

(** *** The fatal metadata error, as seen from outside the process *)

Definition no_flags : Flags :=
  {| showManifest := false; showExample := false; showVersion := false |}.

Definition parse_error (p : Process) : Prop :=
  ExitCode p <> 0 /\
  Stdout p = [] /\
  exists e, Stderr p = lit "error parsing frontmatter: " ++ e ++ [LF].

(** The pipeline runs when no flag short-circuits it and the input was
    read. *)
Definition pipeline_ran (flags : Flags) (stdin : bytes * option bytes) : Prop :=
  showVersion flags = false /\ showManifest flags = false /\
  showExample flags = false /\ snd stdin = None.

(** Helpers to write concrete inputs line by line. *)
Definition nl (s : string) : bytes := lit s ++ [LF].
Definition crlf (s : string) : bytes := lit s ++ [CR; LF].

(** *** Stand-ins for the collaborators

    To run the driver on a concrete input: a parser that returns the
    source as one paragraph of one text run, a decoder that takes the
    whole block as the title, and a quoting that only adds the quotes. *)
Definition sample_Parse (source : bytes) : Node :=
  node Document [node Paragraph [node (Text source false) []]].
Definition sample_yamlUnmarshal (fm : bytes) : bytes + Frontmatter :=
  inr {| Title := fm |}.
Definition sample_Quote (s : bytes) : bytes := [QUOTE] ++ s ++ [QUOTE].
Definition sample_main : Flags -> bytes * option bytes -> result Process :=
  main sample_Parse sample_yamlUnmarshal sample_Quote
       (nl "{}") (nl "# Example") None.

(** * Properties *)

(** ** Facts about the [strings] functions *)

Lemma len_nonneg (s : bytes) : 0 <= len s.
Proof. unfold len. lia. Qed.

Lemma len_app (a b : bytes) : len (a ++ b) = len a + len b.
Proof. unfold len. rewrite length_app. lia. Qed.

Lemma len_cons (c : byte) (s : bytes) : len (c :: s) = len s + 1.
Proof. unfold len. simpl List.length. lia. Qed.

Lemma byte_eqb_refl (c : byte) : Byte.eqb c c = true.
Proof. apply Byte.byte_dec_lb. reflexivity. Qed.

Lemma HasPrefix_app (p t : bytes) : strings.HasPrefix (p ++ t) p = true.
Proof.
  induction p as [|c p IH]; simpl.
  - reflexivity.
  - rewrite byte_eqb_refl. exact IH.
Qed.

Lemma HasPrefix_split (s p : bytes) :
  strings.HasPrefix s p = true -> s = p ++ skipn (List.length p) s.
Proof.
  revert s. induction p as [|c p IH]; intros s H; simpl in *.
  - reflexivity.
  - destruct s as [|x s]; [discriminate|].
    apply andb_true_iff in H. destruct H as [Hx Hs].
    apply Byte.byte_dec_bl in Hx. subst x.
    f_equal. apply IH. exact Hs.
Qed.

Lemma HasPrefix_len (s p : bytes) :
  strings.HasPrefix s p = true -> len p <= len s.
Proof.
  intros H. rewrite (HasPrefix_split s p H). rewrite len_app.
  pose proof (len_nonneg (skipn (List.length p) s)). lia.
Qed.

(** Whether [p] is a prefix is decided by the first [length p] bytes. *)
Lemma HasPrefix_app_indep (x t p : bytes) :
  (List.length p <= List.length x)%nat ->
  strings.HasPrefix (x ++ t) p = strings.HasPrefix x p.
Proof.
  revert x. induction p as [|c p IH]; intros x Hle; simpl.
  - reflexivity.
  - destruct x as [|a x]; simpl in *; [lia|].
    rewrite IH by lia. reflexivity.
Qed.

Lemma Index_range (s p : bytes) : -1 <= strings.Index s p <= len s.
Proof.
  induction s as [|c s IH]; simpl.
  - destruct (strings.HasPrefix [] p); unfold len; simpl; lia.
  - rewrite len_cons.
    destruct (strings.HasPrefix (c :: s) p); [pose proof (len_nonneg s); lia|].
    destruct (strings.Index s p <? 0) eqn:E; [pose proof (len_nonneg s); lia|].
    apply Z.ltb_ge in E. lia.
Qed.

(** A non-negative [Index] cuts [s] at an instance of [p]. *)
Lemma Index_found (s p : bytes) :
  0 <= strings.Index s p ->
  s = firstn (Z.to_nat (strings.Index s p)) s
        ++ p ++ skipn (Z.to_nat (strings.Index s p) + List.length p) s.
Proof.
  induction s as [|c s IH]; simpl.
  - destruct (strings.HasPrefix [] p) eqn:E; [|lia].
    intros _. simpl. apply HasPrefix_split in E. exact E.
  - destruct (strings.HasPrefix (c :: s) p) eqn:E.
    + intros _. simpl. apply HasPrefix_split in E. exact E.
    + destruct (strings.Index s p <? 0) eqn:E2; [lia|].
      apply Z.ltb_ge in E2. intros _.
      replace (Z.to_nat (strings.Index s p + 1))
        with (S (Z.to_nat (strings.Index s p))) by lia.
      simpl. f_equal. apply IH. exact E2.
Qed.

Lemma Index_at_prefix (s p : bytes) :
  strings.HasPrefix s p = true -> strings.Index s p = 0.
Proof. intros H. destruct s; simpl; rewrite H; reflexivity. Qed.

(** The first instance stays the first one when the bytes after it
    change. *)
Lemma Index_app_first (a p t t' : bytes) :
  strings.Index (a ++ p ++ t) p = len a ->
  strings.Index (a ++ p ++ t') p = len a.
Proof.
  induction a as [|c a IH]; simpl; intros H.
  - apply Index_at_prefix, HasPrefix_app.
  - rewrite len_cons in *.
    assert (Hpre : forall u, strings.HasPrefix (c :: a ++ p ++ u) p
                             = strings.HasPrefix (c :: a ++ p) p).
    { intros u. change (c :: a ++ p ++ u) with ((c :: a) ++ p ++ u).
      rewrite app_assoc. apply HasPrefix_app_indep.
      simpl. rewrite length_app. lia. }
    rewrite Hpre in *.
    destruct (strings.HasPrefix (c :: a ++ p) p).
    + pose proof (len_nonneg a). lia.
    + destruct (strings.Index (a ++ p ++ t) p <? 0) eqn:E.
      * pose proof (len_nonneg a). lia.
      * rewrite (IH ltac:(lia)).
        pose proof (len_nonneg a).
        destruct (len a <? 0) eqn:E3; [apply Z.ltb_lt in E3; lia|reflexivity].
Qed.

(** ** Slices at a known cut *)

Lemma slice_to_at (a b : bytes) (i : Z) :
  i = len a -> slice_to (a ++ b) i = Ok a.
Proof.
  intros ->. unfold slice_to. rewrite len_app.
  pose proof (len_nonneg a). pose proof (len_nonneg b).
  replace (0 <=? len a) with true by (symmetry; apply Z.leb_le; lia).
  replace (len a <=? len a + len b) with true by (symmetry; apply Z.leb_le; lia).
  simpl. unfold len. rewrite Nat2Z.id.
  rewrite firstn_app, Nat.sub_diag, firstn_all. simpl.
  rewrite app_nil_r. reflexivity.
Qed.

Lemma slice_from_at (a b : bytes) (i : Z) :
  i = len a -> slice_from (a ++ b) i = Ok b.
Proof.
  intros ->. unfold slice_from. rewrite len_app.
  pose proof (len_nonneg a). pose proof (len_nonneg b).
  replace (0 <=? len a) with true by (symmetry; apply Z.leb_le; lia).
  replace (len a <=? len a + len b) with true by (symmetry; apply Z.leb_le; lia).
  simpl. unfold len. rewrite Nat2Z.id.
  rewrite skipn_app, Nat.sub_diag, skipn_all. reflexivity.
Qed.

Lemma byte_at_is_at (a b : bytes) (i : Z) (c : byte) :
  i = len a ->
  byte_at_is (a ++ b) i c
  = Ok (match b with x :: _ => Byte.eqb x c | [] => false end).
Proof.
  intros ->. unfold byte_at_is, index. rewrite len_app.
  pose proof (len_nonneg a).
  destruct b as [|x b].
  - replace (len a <? len a + len []) with false; [reflexivity|].
    symmetry. apply Z.ltb_ge. unfold len. simpl. lia.
  - rewrite len_cons. pose proof (len_nonneg b).
    replace (len a <? len a + (len b + 1)) with true
      by (symmetry; apply Z.ltb_lt; lia).
    replace (0 <=? len a) with true by (symmetry; apply Z.leb_le; lia).
    simpl. unfold len. rewrite Nat2Z.id.
    rewrite nth_error_app2 by lia. rewrite Nat.sub_diag. reflexivity.
Qed.

Lemma has_opening_len (data : bytes) :
  has_opening data = true -> 4 <= len data.
Proof.
  unfold has_opening. intros H. apply orb_true_iff in H.
  destruct H as [H|H]; apply HasPrefix_len in H; unfold len in *; simpl in H; lia.
Qed.

Lemma has_opening_opening_line (data : bytes) :
  has_opening data = false <-> opening_line data = None.
Proof.
  unfold has_opening, opening_line.
  destruct (strings.HasPrefix data OPEN_LF), (strings.HasPrefix data OPEN_CRLF);
    simpl; split; congruence.
Qed.

Lemma slice_from_4 (data : bytes) :
  has_opening data = true -> slice_from data 4 = Ok (skipn 4 data).
Proof.
  intros H. apply has_opening_len in H. unfold slice_from.
  replace (4 <=? len data) with true by (symmetry; apply Z.leb_le; lia).
  reflexivity.
Qed.

(** Without an opening delimiter the input is the body. *)
Lemma split_no_opening (data : bytes) :
  has_opening data = false -> splitFrontmatter data = Ok (None, data).
Proof.
  unfold has_opening, splitFrontmatter. intros H.
  apply orb_false_iff in H. destruct H as [-> ->]. reflexivity.
Qed.

(** With an opening delimiter and no closing one the input is the body. *)
Lemma split_no_closing (data : bytes) :
  has_opening data = true ->
  strings.Index (skipn 4 data) CLOSE < 0 ->
  splitFrontmatter data = Ok (None, data).
Proof.
  intros Ho Hi. unfold splitFrontmatter.
  replace (negb (strings.HasPrefix data OPEN_LF)
           && negb (strings.HasPrefix data OPEN_CRLF)) with false.
  2:{ unfold has_opening in Ho. rewrite <- negb_orb, Ho. reflexivity. }
  rewrite (slice_from_4 data Ho). cbn [bind].
  apply Z.ltb_lt in Hi. rewrite Hi. reflexivity.
Qed.

(** With both delimiters the bytes before the first closing delimiter are
    the frontmatter and those after it, less one newline, the body. *)
Lemma split_closing (data fm t : bytes) :
  has_opening data = true ->
  skipn 4 data = fm ++ CLOSE ++ t ->
  strings.Index (skipn 4 data) CLOSE = len fm ->
  splitFrontmatter data = Ok (Some fm, consume_newline t).
Proof.
  intros Ho Hrest Hi. unfold splitFrontmatter.
  replace (negb (strings.HasPrefix data OPEN_LF)
           && negb (strings.HasPrefix data OPEN_CRLF)) with false.
  2:{ unfold has_opening in Ho. rewrite <- negb_orb, Ho. reflexivity. }
  rewrite (slice_from_4 data Ho). cbn [bind].
  rewrite Hi. clear Hi. rewrite Hrest. clear Hrest Ho.
  pose proof (len_nonneg fm) as Hfm.
  replace (len fm <? 0) with false by (symmetry; apply Z.ltb_ge; lia).
  rewrite slice_to_at by reflexivity. cbn [bind].
  assert (E4 : len fm + 4 = len (fm ++ CLOSE))
    by (rewrite len_app; reflexivity).
  assert (E5 : forall x, len fm + 4 + 1 = len ((fm ++ CLOSE) ++ [x]))
    by (intros x; rewrite !len_app; reflexivity).
  assert (E6 : forall x y, len fm + 4 + 1 + 1
                           = len (((fm ++ CLOSE) ++ [x]) ++ [y]))
    by (intros x y; rewrite !len_app; reflexivity).
  rewrite (app_assoc fm CLOSE t).
  rewrite !(byte_at_is_at (fm ++ CLOSE) t _ _ E4). cbn [bind].
  destruct t as [|x t]; cbn [consume_newline bind].
  - rewrite (slice_from_at (fm ++ CLOSE) [] _ E4). reflexivity.
  - replace ((fm ++ CLOSE) ++ x :: t) with (((fm ++ CLOSE) ++ [x]) ++ t)
      by (rewrite <- (app_assoc _ [x] t); reflexivity).
    destruct (Byte.eqb x LF); cbn [bind].
    + rewrite (slice_from_at _ t _ (E5 x)). reflexivity.
    + destruct (Byte.eqb x CR); cbn [bind].
      * rewrite (byte_at_is_at _ t _ _ (E5 x)). cbn [bind].
        destruct t as [|y t]; cbn [bind].
        -- rewrite (slice_from_at _ [] _ (E5 x)). reflexivity.
        -- destruct (Byte.eqb y LF); cbn [bind].
           ++ replace (((fm ++ CLOSE) ++ [x]) ++ y :: t)
                with ((((fm ++ CLOSE) ++ [x]) ++ [y]) ++ t)
                by (rewrite <- (app_assoc _ [y] t); reflexivity).
              rewrite (slice_from_at _ t _ (E6 x y)). reflexivity.
           ++ rewrite (slice_from_at _ (y :: t) _ (E5 x)). reflexivity.
      * replace (((fm ++ CLOSE) ++ [x]) ++ t) with ((fm ++ CLOSE) ++ x :: t)
          by (rewrite <- (app_assoc _ [x] t); reflexivity).
        rewrite (slice_from_at _ (x :: t) _ E4). reflexivity.
Qed.

(** ** [splitFrontmatter]: the three outcomes *)

Lemma split_inv (data m b : bytes) :
  splitFrontmatter data = Ok (Some m, b) ->
  has_opening data = true /\
  exists t, skipn 4 data = m ++ CLOSE ++ t /\
            strings.Index (skipn 4 data) CLOSE = len m /\
            b = consume_newline t.
Proof.
  intros H.
  destruct (has_opening data) eqn:Ho.
  2:{ rewrite (split_no_opening data Ho) in H. discriminate. }
  split; [reflexivity|].
  destruct (Z_lt_ge_dec (strings.Index (skipn 4 data) CLOSE) 0) as [Hi|Hi].
  { rewrite (split_no_closing data Ho Hi) in H. discriminate. }
  pose proof (Index_found (skipn 4 data) CLOSE ltac:(lia)) as Hcut.
  pose proof (Index_range (skipn 4 data) CLOSE) as Hr.
  set (i := strings.Index (skipn 4 data) CLOSE) in *.
  set (fm := firstn (Z.to_nat i) (skipn 4 data)) in *.
  set (t := skipn (Z.to_nat i + List.length CLOSE) (skipn 4 data)) in *.
  assert (Hlen : i = len fm).
  { unfold fm, len. rewrite length_firstn. unfold len in Hr. lia. }
  rewrite (split_closing data fm t Ho Hcut Hlen) in H.
  inversion H; subst m b. exists t. rewrite <- Hlen. auto.
Qed.

(** The slices of [splitFrontmatter] are always in range. *)
Lemma splitFrontmatter_total (data : bytes) :
  exists r, splitFrontmatter data = Ok r.
Proof.
  destruct (has_opening data) eqn:Ho.
  2:{ eexists. apply split_no_opening, Ho. }
  destruct (Z_lt_ge_dec (strings.Index (skipn 4 data) CLOSE) 0) as [Hi|Hi].
  { eexists. apply split_no_closing; assumption. }
  pose proof (Index_found (skipn 4 data) CLOSE ltac:(lia)) as Hcut.
  pose proof (Index_range (skipn 4 data) CLOSE) as Hr.
  eexists. eapply split_closing; [exact Ho|exact Hcut|].
  unfold len. rewrite length_firstn. unfold len in Hr. lia.
Qed.

(** An instance of the closing delimiter in the bytes after the first four
    is a later line that begins with [---]. *)
Lemma closing_is_later_line (data : bytes) :
  has_opening data = true ->
  0 <= strings.Index (skipn 4 data) CLOSE ->
  later_delim_line data = true.
Proof.
  intros Ho Hi.
  pose proof (Index_found (skipn 4 data) CLOSE Hi) as Hcut.
  set (a := firstn (Z.to_nat (strings.Index (skipn 4 data) CLOSE))
                   (skipn 4 data)) in *.
  set (u := skipn _ (skipn 4 data)) in *.
  pose proof (has_opening_len data Ho) as H4.
  assert (Hd : data = ((firstn 4 data ++ a) ++ [LF]) ++ DELIM ++ u).
  { rewrite <- (firstn_skipn 4 data) at 1. rewrite Hcut.
    rewrite <- !app_assoc. reflexivity. }
  assert (Hl4 : List.length (firstn 4 data) = 4%nat).
  { rewrite length_firstn. unfold len in H4. lia. }
  set (p := S (4 + List.length a)).
  assert (Hp : List.length ((firstn 4 data ++ a) ++ [LF]) = p).
  { rewrite !length_app, Hl4. simpl. unfold p. lia. }
  unfold later_delim_line.
  destruct (opening_line data) as [n|] eqn:Hn.
  2:{ apply has_opening_opening_line in Hn. congruence. }
  assert (Hn5 : (n <= 5)%nat).
  { unfold opening_line in Hn.
    destruct (strings.HasPrefix data OPEN_LF);
      [|destruct (strings.HasPrefix data OPEN_CRLF)];
      inversion Hn; lia. }
  apply existsb_exists. exists p. split.
  - apply in_seq. rewrite Hd at 1. rewrite length_app, Hp. lia.
  - apply andb_true_iff. split; [apply Nat.leb_le; unfold p; lia|].
    unfold line_begins_with, p. apply andb_true_iff. split.
    + rewrite Hd. rewrite <- app_assoc.
      rewrite nth_error_app2 by (rewrite length_app, Hl4; lia).
      rewrite length_app, Hl4, Nat.sub_diag. reflexivity.
    + fold p. rewrite Hd. rewrite skipn_app, Hp, Nat.sub_diag.
      rewrite skipn_all2 by lia.
      exact (HasPrefix_app DELIM u).
Qed.

(** C1. The claim says that every input with an opening [---] line and a
    later line beginning with [---] is split into the bytes between the
    two lines and the bytes after the closing line.  The source searches
    for a line feed followed by [---] only after the line feed of the
    opening line, so a closing line directly after an LF-terminated
    opening line is not found: the input [---\n---\nbody\n] has both
    lines, an empty interior, and comes back whole with no metadata.  The
    same document with CRLF line ends is split as the claim says. *)
Theorem splitFrontmatter_empty_header_not_split :
  let data := nl "---" ++ nl "---" ++ nl "body" in
  opening_line data = Some 4%nat /\
  later_delim_line data = true /\
  splitFrontmatter data = Ok (None, data) /\
  splitFrontmatter (crlf "---" ++ crlf "---" ++ crlf "body")
  = Ok (Some [], crlf "body").
Proof. cbv zeta. repeat split; reflexivity. Qed.

(** The opening line feed of a CRLF document stays in the metadata, for
    the source skips four bytes after either opening line. *)
Example splitFrontmatter_crlf_keeps_line_feed :
  splitFrontmatter (crlf "---" ++ nl "a" ++ nl "---" ++ lit "b")
  = Ok (Some (LF :: lit "a"), lit "b").
Proof. reflexivity. Qed.

(** The bytes that follow [---] on the closing line stay in the body. *)
Example splitFrontmatter_closing_line_rest :
  splitFrontmatter (nl "---" ++ nl "a" ++ nl "---b" ++ lit "c")
  = Ok (Some (lit "a"), nl "b" ++ lit "c").
Proof. reflexivity. Qed.

(** What does hold for the LF convention: when the metadata [m] holds no
    line feed followed by [---] and is followed by one, [m] is returned
    and the body is what follows that [---], less one newline. *)
Lemma splitFrontmatter_lf (m t : bytes) :
  strings.Index (m ++ CLOSE ++ t) CLOSE = len m ->
  splitFrontmatter (OPEN_LF ++ m ++ CLOSE ++ t)
  = Ok (Some m, consume_newline t).
Proof.
  intros H. apply split_closing.
  - unfold has_opening. rewrite HasPrefix_app. reflexivity.
  - reflexivity.
  - exact H.
Qed.


(** X17. When [splitFrontmatter] does return metadata [m] and body [b],
    splitting [---\n] followed by [m], [\n---\n] and [b] returns [m] and
    [b] again, whatever the line ends of the input were. *)
Theorem splitFrontmatter_resplit (data m b : bytes) :
  splitFrontmatter data = Ok (Some m, b) ->
  splitFrontmatter (reconstruct m b) = Ok (Some m, b).
Proof.
  intros H. apply split_inv in H.
  destruct H as [_ [t [Hrest [Hi _]]]].
  rewrite Hrest in Hi.
  unfold reconstruct. rewrite <- (app_assoc CLOSE [LF] b).
  rewrite (splitFrontmatter_lf m ([LF] ++ b)).
  - reflexivity.
  - eapply Index_app_first. exact Hi.
Qed.

Lemma splitFrontmatter_resplit_witness :
  splitFrontmatter (crlf "---" ++ crlf "title: x" ++ crlf "---" ++ lit "body")
  = Ok (Some (LF :: lit "title: x" ++ [CR]), lit "body")
  /\ splitFrontmatter (reconstruct (LF :: lit "title: x" ++ [CR]) (lit "body"))
     = Ok (Some (LF :: lit "title: x" ++ [CR]), lit "body").
Proof.
  split.
  - reflexivity.
  - apply (splitFrontmatter_resplit
             (crlf "---" ++ crlf "title: x" ++ crlf "---" ++ lit "body")).
    reflexivity.
Defined.

(** C6. An input that does not begin with a [---] line, or that begins
    with one and has no later line beginning with [---], is returned whole
    as the body, with no metadata and without a panic. *)
Theorem splitFrontmatter_no_header (data : bytes) :
  opening_line data = None \/
  (opening_line data <> None /\ later_delim_line data = false) ->
  splitFrontmatter data = Ok (None, data).
Proof.
  intros [Hn|[Hn Hl]].
  - apply split_no_opening, has_opening_opening_line, Hn.
  - assert (Ho : has_opening data = true).
    { destruct (has_opening data) eqn:E; [reflexivity|].
      apply has_opening_opening_line in E. contradiction. }
    apply split_no_closing; [exact Ho|].
    destruct (Z_lt_ge_dec (strings.Index (skipn 4 data) CLOSE) 0) as [Hi|Hi];
      [exact Hi|].
    rewrite (closing_is_later_line data Ho ltac:(lia)) in Hl. discriminate.
Qed.

Lemma splitFrontmatter_no_header_witness :
  (opening_line (nl "---" ++ nl "title: x" ++ nl "# Hi") = None \/
   (opening_line (nl "---" ++ nl "title: x" ++ nl "# Hi") <> None /\
    later_delim_line (nl "---" ++ nl "title: x" ++ nl "# Hi") = false))
  /\ splitFrontmatter (nl "---" ++ nl "title: x" ++ nl "# Hi")
     = Ok (None, nl "---" ++ nl "title: x" ++ nl "# Hi").
Proof.
  assert (H : opening_line (nl "---" ++ nl "title: x" ++ nl "# Hi") = None \/
              (opening_line (nl "---" ++ nl "title: x" ++ nl "# Hi") <> None /\
               later_delim_line (nl "---" ++ nl "title: x" ++ nl "# Hi")
               = false)).
  { right. split; [discriminate|reflexivity]. }
  split; [exact H|].
  apply (splitFrontmatter_no_header _ H).
Defined.

(** ** The walk *)

(** Induction on a tree, with the property available for every child. *)
Lemma Node_children_ind (P : Node -> Prop) :
  (forall k cs, Forall P cs -> P (node k cs)) -> forall n, P n.
Proof.
  intros step. fix IH 1. intros [k cs]. apply step.
  induction cs as [|c cs IHcs]; constructor.
  - apply IH.
  - exact IHcs.
Qed.

Section WalkContinues.
Context {St Err : Type}.
Variable wk : Node -> bool -> St -> St * WalkStatus * option Err.
Hypothesis wk_continues :
  forall n e st, wk n e st = (visit wk n e st, WalkContinue, None).

(** With a walker that always continues, [ast.Walk] calls it on entry,
    walks every child in order and calls it on exit. *)
Lemma walkChildren_traverse (cs : list Node) :
  Forall (fun c => forall st,
            ast.walkHelper wk c st = (traverse wk c st, WalkContinue, None))
         cs ->
  forall st,
    ast.walkChildren (ast.walkHelper wk) cs st
    = (fold_left (fun st c => traverse wk c st) cs st, WalkContinue, None).
Proof.
  induction 1 as [|c cs Hc _ IHcs]; intros st; cbn [ast.walkChildren fold_left].
  - reflexivity.
  - rewrite (Hc st). cbn [ast.halted]. apply IHcs.
Qed.

Lemma walkHelper_traverse (n : Node) :
  forall st, ast.walkHelper wk n st = (traverse wk n st, WalkContinue, None).
Proof.
  induction n as [k cs IH] using Node_children_ind. intros st.
  cbn [ast.walkHelper traverse].
  rewrite (wk_continues (node k cs) true st). cbn [ast.halted].
  rewrite (walkChildren_traverse cs IH). cbn [ast.halted].
  rewrite wk_continues. reflexivity.
Qed.
End WalkContinues.

(** ** The renderer *)

Lemma walker_continues (n : Node) (e : bool) (w : bytes) :
  walker n e w = (visit walker n e w, WalkContinue, None).
Proof. reflexivity. Qed.

Lemma renderTree_traverse (w : bytes) (n : Node) :
  renderTree w n = traverse walker n w.
Proof.
  unfold renderTree, ast.Walk.
  rewrite (walkHelper_traverse walker walker_continues). reflexivity.
Qed.

Ltac appends :=
  unfold fmt.Fprint, fmt.Fprintln;
  rewrite ?app_nil_l, ?app_nil_r, <- ?app_assoc; reflexivity.

(** Every event appends to the writer, and what it appends depends on the
    kind of the node alone. *)
Lemma visit_appends (k : NodeKind) (cs : list Node) (e : bool) (w : bytes) :
  visit walker (node k cs) e w = w ++ on_event k e.
Proof.
  unfold on_event, visit, walker. cbn [fst Kind].
  destruct k, e; cbn [negb];
    try match goal with |- context [if ?b then _ else _] => destruct b end;
    appends.
Qed.

Lemma fold_traverse_appends (cs : list Node) :
  Forall (fun c => forall w, traverse walker c w = w ++ traverse walker c []) cs ->
  forall w,
    fold_left (fun st c => traverse walker c st) cs w
    = w ++ flat_map (fun c => traverse walker c []) cs.
Proof.
  induction 1 as [|c cs Hc _ IH]; intros w; cbn [fold_left flat_map].
  - rewrite app_nil_r. reflexivity.
  - rewrite IH, Hc, <- app_assoc. reflexivity.
Qed.

Lemma traverse_appends (n : Node) :
  forall w, traverse walker n w = w ++ traverse walker n [].
Proof.
  induction n as [k cs IH] using Node_children_ind. intros w.
  cbn [traverse]. rewrite !visit_appends.
  rewrite !(fold_traverse_appends cs IH).
  rewrite app_nil_l, <- !app_assoc. reflexivity.
Qed.

(** The rendering of a node: what its entry adds, the renderings of its
    children in their order, what its exit adds. *)
Lemma renderTree_node (k : NodeKind) (cs : list Node) (w : bytes) :
  renderTree w (node k cs)
  = w ++ on_event k true ++ flat_map (renderTree []) cs ++ on_event k false.
Proof.
  rewrite renderTree_traverse. cbn [traverse]. rewrite !visit_appends.
  rewrite (fold_traverse_appends cs).
  - rewrite <- !app_assoc. do 2 f_equal. f_equal.
    apply flat_map_ext. intros c. symmetry. apply renderTree_traverse.
  - apply Forall_forall. intros c _. apply traverse_appends.
Qed.

Lemma unmapped_emits_nothing (k : NodeKind) (e : bool) :
  has_mapping k = false -> on_event k e = [].
Proof. destruct k, e; (discriminate || reflexivity). Qed.

(** C3. A node whose kind has no case in the switch adds nothing to the
    output, on entry and on exit alike, and the walker reports neither a
    stop nor an error for it. *)
Theorem unsupported_node_is_silent
    (k : NodeKind) (cs : list Node) (entering : bool) (w : bytes) :
  has_mapping k = false ->
  walker (node k cs) entering w = (w, WalkContinue, None).
Proof.
  intros H. rewrite walker_continues, visit_appends.
  rewrite (unmapped_emits_nothing k entering H), app_nil_r. reflexivity.
Qed.

Lemma unsupported_node_is_silent_witness :
  has_mapping Link = false /\
  walker (node Link [node (Text (lit "x") false) []]) true (lit "out")
  = (lit "out", WalkContinue, None).
Proof.
  split; [reflexivity|].
  apply (unsupported_node_is_silent Link). reflexivity.
Defined.

(** Chunks in order stay in order when bytes are put before or after,
    and two outputs one after the other hold the chunks of both. *)
Lemma in_order_pad_left (chunks : list bytes) (a b : bytes) :
  in_order chunks b -> in_order chunks (a ++ b).
Proof.
  destruct chunks as [|c chunks]; cbn [in_order]; [trivial|].
  intros [b1 [b2 [-> H]]]. exists (a ++ b1), b2.
  split; [rewrite <- app_assoc; reflexivity|exact H].
Qed.

Lemma in_order_pad_right (chunks : list bytes) :
  forall a b, in_order chunks a -> in_order chunks (a ++ b).
Proof.
  induction chunks as [|c chunks IH]; cbn [in_order]; [trivial|].
  intros a b [a1 [a2 [-> H]]]. exists a1, (a2 ++ b).
  split; [rewrite <- !app_assoc; reflexivity|apply IH, H].
Qed.

Lemma in_order_app (xs ys : list bytes) :
  forall a b, in_order xs a -> in_order ys b -> in_order (xs ++ ys) (a ++ b).
Proof.
  induction xs as [|c xs IH]; cbn [in_order app]; intros a b Ha Hb.
  - apply in_order_pad_left, Hb.
  - destruct Ha as [a1 [a2 [-> Ha]]]. exists a1, (a2 ++ b).
    split; [rewrite <- !app_assoc; reflexivity|apply IH; assumption].
Qed.

Lemma in_order_flat_map (cs : list Node) :
  Forall (fun c => in_order (text_runs c) (renderTree [] c)) cs ->
  in_order (flat_map text_runs cs) (flat_map (renderTree []) cs).
Proof.
  induction 1 as [|c cs Hc _ IH]; cbn [flat_map in_order]; [trivial|].
  apply in_order_app; assumption.
Qed.

(** Every text run of a tree, at any depth and under nodes of any kind,
    is in the rendering byte for byte, and the runs keep their order. *)
Lemma text_runs_in_order (n : Node) :
  in_order (text_runs n) (renderTree [] n).
Proof.
  induction n as [k cs IH] using Node_children_ind.
  apply in_order_flat_map in IH.
  rewrite renderTree_node, app_nil_l. cbn [text_runs].
  assert (Hmid : in_order (flat_map text_runs cs)
                   (flat_map (renderTree []) cs ++ on_event k false))
    by (apply in_order_pad_right, IH).
  destruct k; cbn [app];
    try (apply in_order_pad_left; exact Hmid).
  (* a text run: its segment opens what its entry writes *)
  cbn [in_order]. exists [].
  unfold on_event at 1, visit, walker, fmt.Fprint, fmt.Fprintln.
  cbn [fst Kind]. destruct SoftLineBreak.
  - exists ([LF] ++ flat_map (renderTree []) cs
              ++ on_event (Text Segment true) false).
    split; [rewrite ?app_nil_l, <- ?app_assoc; reflexivity|].
    apply in_order_pad_left, Hmid.
  - exists (flat_map (renderTree []) cs
              ++ on_event (Text Segment false) false).
    split; [rewrite ?app_nil_l; reflexivity|exact Hmid].
Qed.

(** C10. The walk goes on into the children of a node of an unsupported
    kind: its rendering is exactly the renderings of its children, in
    their order, and every text run below it, at any depth, is in that
    rendering byte for byte, the runs in document order. *)
Theorem unsupported_node_keeps_subtree
    (k : NodeKind) (cs : list Node) (w : bytes) :
  has_mapping k = false ->
  renderTree w (node k cs) = w ++ flat_map (renderTree []) cs
  /\ in_order (text_runs (node k cs)) (flat_map (renderTree []) cs).
Proof.
  intros H. split.
  - rewrite renderTree_node.
    rewrite !(unmapped_emits_nothing k _ H), app_nil_r. reflexivity.
  - pose proof (text_runs_in_order (node k cs)) as Hin.
    rewrite renderTree_node, app_nil_l in Hin.
    rewrite !(unmapped_emits_nothing k _ H), app_nil_l, app_nil_r in Hin.
    exact Hin.
Qed.

Lemma unsupported_node_keeps_subtree_witness :
  has_mapping Blockquote = false /\
  renderTree (lit "out")
    (node Blockquote [node Link [node (Text (lit "a") false) []];
                      node (Text (lit "b") false) []])
  = lit "out"
      ++ flat_map (renderTree [])
           [node Link [node (Text (lit "a") false) []];
            node (Text (lit "b") false) []]
  /\ in_order
       (text_runs
          (node Blockquote [node Link [node (Text (lit "a") false) []];
                            node (Text (lit "b") false) []]))
       (flat_map (renderTree [])
          [node Link [node (Text (lit "a") false) []];
           node (Text (lit "b") false) []]).
Proof.
  split; [reflexivity|].
  apply (unsupported_node_keeps_subtree Blockquote). reflexivity.
Defined.

(** A text run inside a link inside a block quote reaches the output
    byte for byte. *)
Example text_under_unsupported_nodes :
  renderTree []
    (node Document
       [node Blockquote
          [node Paragraph
             [node Link [node (Text (lit "see") true) []];
              node (Text (lit "here") false) []]]])
  = nl "see" ++ nl "here" ++ [LF].
Proof. reflexivity. Qed.

(** ** Code spans *)

(** The text of a code span goes between the quotes as it is. *)
Lemma code_span_verbatim (text : bytes) (cs : list Node) (w : bytes) :
  walker (node (CodeSpan text) cs) true w
  = (w ++ lit "#raw(" ++ [QUOTE] ++ text ++ [QUOTE] ++ lit ")",
     WalkContinue, None).
Proof. reflexivity. Qed.

(** C2. The claim says that the text of a code span is escaped before it
    is put inside the quoted string of the raw-inline directive.  The
    source formats it with the verb [%s], which copies it: for the span
    text made of [a], a double quote and [b], the quote reaches the output
    bare and ends the string early, where the escaped text would have a
    backslash before it.  The
    title, in [writePageSetup], is formatted with [%q]. *)
Theorem code_span_text_is_not_escaped :
  let text := lit "a" ++ [QUOTE] ++ lit "b" in
  walker (node (CodeSpan text) []) true []
  = (lit "#raw(" ++ [QUOTE] ++ lit "a" ++ [QUOTE] ++ lit "b" ++ [QUOTE]
       ++ lit ")", WalkContinue, None)
  /\ escape_string_literal text = lit "a" ++ [BACKSLASH; QUOTE] ++ lit "b"
  /\ on_event (CodeSpan text) true
     <> lit "#raw(" ++ [QUOTE] ++ escape_string_literal text ++ [QUOTE]
          ++ lit ")".
Proof.
  cbv zeta. split; [reflexivity|]. split; [reflexivity|]. discriminate.
Qed.

(** ** Fenced code blocks *)

Lemma fold_left_app_concat (ls : list bytes) :
  forall acc, fold_left (fun buf line => buf ++ line) ls acc = acc ++ List.concat ls.
Proof.
  induction ls as [|l ls IH]; intros acc; cbn [fold_left List.concat].
  - rewrite app_nil_r. reflexivity.
  - rewrite IH, app_assoc. reflexivity.
Qed.

(** [trimRightByte] removes a run of [c] from the end ... *)
Lemma trimRightByte_decompose (s : bytes) (c : byte) :
  exists k, s = strings.trimRightByte s c ++ repeat c k.
Proof.
  induction s as [|x s [k IH]]; cbn [strings.trimRightByte].
  - exists 0%nat. reflexivity.
  - destruct (strings.trimRightByte s c) as [|y r] eqn:E.
    + destruct (Byte.eqb x c) eqn:Ex.
      * apply Byte.byte_dec_bl in Ex. subst x.
        exists (S k). rewrite IH at 1. reflexivity.
      * exists k. rewrite IH at 1. reflexivity.
    + exists k. rewrite IH at 1. reflexivity.
Qed.

(** ... and all of it: what is left does not end with [c]. *)
Lemma trimRightByte_no_trailing (s : bytes) (c : byte) :
  forall t, strings.trimRightByte s c <> t ++ [c].
Proof.
  induction s as [|x s IH]; cbn [strings.trimRightByte]; intros t H.
  - destruct t; discriminate.
  - destruct (strings.trimRightByte s c) as [|y r] eqn:E.
    + destruct (Byte.eqb x c) eqn:Ex.
      * destruct t; discriminate.
      * destruct t as [|a [|b t]]; try discriminate.
        inversion H; subst. rewrite byte_eqb_refl in Ex. discriminate.
    + destruct t as [|a t]; [discriminate|].
      inversion H; subst. apply (IH t). assumption.
Qed.

(** C8. On entry a fenced code block writes four lines: the opening
    fence, the concatenated lines of the block with every line feed at
    the very end removed, the closing fence and a blank line; nothing is
    written on exit.  For the lines [a\n] and [b\n] the bytes between the
    fence lines are [a], a line feed and [b]. *)
Theorem fenced_code_block_output (Lines : list bytes) (cs : list Node) (w : bytes) :
  walker (node (FencedCodeBlock Lines) cs) true w
  = (w ++ unlines [FENCE; strings.trimRightByte (List.concat Lines) LF; FENCE; BLANK],
     WalkContinue, None)
  /\ walker (node (FencedCodeBlock Lines) cs) false w = (w, WalkContinue, None)
  /\ (exists k, List.concat Lines
                = strings.trimRightByte (List.concat Lines) LF ++ repeat LF k)
  /\ (forall t, strings.trimRightByte (List.concat Lines) LF <> t ++ [LF])
  /\ walker (node (FencedCodeBlock [nl "a"; nl "b"]) []) true []
     = (nl "```" ++ lit "a" ++ [LF] ++ lit "b" ++ [LF] ++ nl "```" ++ [LF],
        WalkContinue, None).
Proof.
  split; [|split; [reflexivity|split; [|split; [|reflexivity]]]].
  - unfold walker. cbn [Kind]. rewrite fold_left_app_concat, app_nil_l.
    unfold fmt.Fprint, fmt.verb_s, unlines. cbn [flat_map].
    rewrite <- !app_assoc. reflexivity.
  - apply trimRightByte_decompose.
  - apply trimRightByte_no_trailing.
Qed.

(** ** Headings *)

(** The directive text of the specification is not the text written: the
    source writes a hash sign first and [level: 2], not [level=2]. *)
Lemma heading_directive_text_differs :
  on_event (Heading 2) true <> lit "heading(level=2)[".
Proof. discriminate. Qed.

(** C9, amended. On entry a heading of level [L] writes
    [#heading(level: L)[] with [L] in decimal; on exit it writes a closing
    bracket, the end of that line and one blank line; the renderings of
    its children stand between the two. *)
Theorem heading_directive (L : Z) (cs : list Node) (w : bytes) :
  walker (node (Heading L) cs) true w
  = (w ++ lit "#heading(level: " ++ fmt.verb_d L ++ lit ")[",
     WalkContinue, None)
  /\ walker (node (Heading L) cs) false w
     = (w ++ unlines [lit "]"; BLANK], WalkContinue, None)
  /\ renderTree w (node (Heading L) cs)
     = w ++ lit "#heading(level: " ++ fmt.verb_d L ++ lit ")["
         ++ flat_map (renderTree []) cs ++ unlines [lit "]"; BLANK]
  /\ renderTree [] (node (Heading 2) [node (Text (lit "Hi") false) []])
     = lit "#heading(level: 2)[Hi]" ++ [LF; LF].
Proof.
  split; [reflexivity|]. split; [|split; [|reflexivity]].
  - unfold walker, fmt.Fprintln, unlines. cbn [Kind flat_map].
    rewrite <- !app_assoc. reflexivity.
  - rewrite renderTree_node.
    unfold on_event, visit, walker, fmt.Fprint, fmt.Fprintln, unlines.
    cbn [fst Kind flat_map].
    rewrite ?app_nil_l, <- ?app_assoc. reflexivity.
Qed.

(** ** The preamble and the driver *)

Section ProgramProperties.
Variable Parse : bytes -> Node.
Variable yamlUnmarshal : bytes -> bytes + Frontmatter.
Variable Quote : bytes -> bytes.
Variable manifestData exampleData : bytes.
Variable manifestVersion : option bytes.

(** C4. [writePageSetup] writes, one per line, the page-size directive,
    the text directive, the paragraph-style directive and a blank line,
    whatever the metadata; after them, when the title is not empty, the
    binding of the quoted title, a blank line, the centred bold block
    around the title as it is, the vertical space and a blank line; and
    nothing more when the title is empty. *)
Theorem writePageSetup_lines (w : bytes) (meta : Frontmatter) :
  writePageSetup Quote w meta
  = w ++ unlines (fixed_preamble
                    ++ (if is_empty (Title meta) then []
                        else title_block Quote (Title meta))).
Proof.
  unfold writePageSetup, fixed_preamble, title_block, unlines.
  unfold fmt.Fprintln, fmt.Fprint, fmt.verb_s.
  unfold PAGE_SIZE, TEXT_FONT, PAR_STYLE, BLANK, VSPACE,
    title_binding, title_heading.
  destruct (Title meta) as [|c t]; cbn [is_empty];
    rewrite flat_map_app; cbn [flat_map];
    rewrite ?app_nil_r, ?app_nil_l, <- ?app_assoc; reflexivity.
Qed.

(** The slices of [splitFrontmatter] being in range, a run never
    panics. *)
Lemma main_total (flags : Flags) (stdin : bytes * option bytes) :
  exists p,
    main Parse yamlUnmarshal Quote manifestData exampleData manifestVersion
      flags stdin = Ok p.
Proof.
  unfold main. destruct stdin as [input err].
  destruct (showVersion flags); [eexists; reflexivity|].
  destruct (showManifest flags); [eexists; reflexivity|].
  destruct (showExample flags); [eexists; reflexivity|].
  destruct err; [eexists; reflexivity|].
  destruct (splitFrontmatter_total input) as [[fm body] ->]. cbn [bind].
  destruct (if 0 <? len (nil_as_empty fm) then _ else _);
    eexists; reflexivity.
Qed.

(** C7. A run ends with the fatal metadata error (status not zero,
    nothing on standard output, the diagnostic on standard error) exactly
    when the pipeline ran, [splitFrontmatter] returned a metadata block
    that is not empty and the decoder rejected its bytes.  When the block
    is empty or absent the decoder has no part in the run: any other
    decoder gives the same run. *)
Theorem main_parse_error_iff (flags : Flags) (stdin : bytes * option bytes) :
  exists p fm body,
    splitFrontmatter (fst stdin) = Ok (fm, body) /\
    main Parse yamlUnmarshal Quote manifestData exampleData manifestVersion
      flags stdin = Ok p /\
    (parse_error p <->
     pipeline_ran flags stdin /\
     nil_as_empty fm <> [] /\
     exists e, yamlUnmarshal (nil_as_empty fm) = inl e) /\
    (nil_as_empty fm = [] ->
     forall decoder,
       main Parse decoder Quote manifestData exampleData manifestVersion
         flags stdin = Ok p).
Proof.
  destruct (splitFrontmatter_total (fst stdin)) as [[fm body] Hs].
  destruct (main_total flags stdin) as [p Hp].
  exists p, fm, body. split; [exact Hs|]. split; [exact Hp|].
  unfold main, pipeline_ran, parse_error in *.
  destruct stdin as [input err]. cbn [fst snd] in *.
  destruct (showVersion flags).
  { inversion Hp; subst p; cbn. split; [|intros _ decoder; reflexivity].
    split; [intros [H _]; congruence|intros [[H _] _]; discriminate]. }
  destruct (showManifest flags).
  { inversion Hp; subst p; cbn. split; [|intros _ decoder; reflexivity].
    split; [intros [H _]; congruence|intros [[_ [H _]] _]; discriminate]. }
  destruct (showExample flags).
  { inversion Hp; subst p; cbn. split; [|intros _ decoder; reflexivity].
    split; [intros [H _]; congruence
           |intros [[_ [_ [H _]]] _]; discriminate]. }
  destruct err as [e0|].
  { inversion Hp; subst p; cbn. split; [|intros _ decoder; reflexivity].
    split; [intros [_ [_ [e H]]]; discriminate
           |intros [[_ [_ [_ H]]] _]; discriminate]. }
  rewrite Hs in *. cbn [bind] in *.
  destruct (nil_as_empty fm) as [|c m] eqn:Hfm.
  - change (0 <? len []) with false in *. cbv iota in *.
    inversion Hp; subst p; cbn. split; [|intros _ decoder; reflexivity].
    split; [intros [H _]; congruence|intros [_ [H _]]; congruence].
  - replace (0 <? len (c :: m)) with true in *
      by (symmetry; apply Z.ltb_lt; rewrite len_cons;
          pose proof (len_nonneg m); lia).
    split; [|discriminate].
    destruct (yamlUnmarshal (c :: m)) as [e|meta] eqn:Hy.
    + inversion Hp; subst p; cbn. split.
      * intros _. repeat split; try discriminate. exists e. reflexivity.
      * intros _. repeat split; try discriminate. exists e. reflexivity.
    + inversion Hp; subst p; cbn. split.
      * intros [H _]. congruence.
      * intros [_ [_ [e H]]]. discriminate.
Qed.

End ProgramProperties.

(** * Further properties of the source *)

(** ** [splitFrontmatter] beyond the claims *)

(** The three ways [splitFrontmatter] ends. *)
Lemma split_cases (data : bytes) :
  splitFrontmatter data = Ok (None, data) \/
  exists m t,
    has_opening data = true /\
    skipn 4 data = m ++ CLOSE ++ t /\
    strings.Index (skipn 4 data) CLOSE = len m /\
    splitFrontmatter data = Ok (Some m, consume_newline t).
Proof.
  destruct (has_opening data) eqn:Ho.
  2:{ left. apply split_no_opening, Ho. }
  destruct (Z_lt_ge_dec (strings.Index (skipn 4 data) CLOSE) 0) as [Hi|Hi].
  { left. apply split_no_closing; assumption. }
  right.
  pose proof (Index_found (skipn 4 data) CLOSE ltac:(lia)) as Hcut.
  pose proof (Index_range (skipn 4 data) CLOSE) as Hr.
  assert (Hlen : strings.Index (skipn 4 data) CLOSE
                 = len (firstn (Z.to_nat (strings.Index (skipn 4 data) CLOSE))
                               (skipn 4 data))).
  { unfold len. rewrite length_firstn. unfold len in Hr. lia. }
  eexists. eexists. split; [reflexivity|]. split; [exact Hcut|].
  split; [exact Hlen|]. apply split_closing; [exact Ho|exact Hcut|exact Hlen].
Qed.

(** X1. No input makes [splitFrontmatter] index or slice out of range:
    it always returns a pair. *)
Theorem splitFrontmatter_never_panics (data : bytes) :
  exists fm body, splitFrontmatter data = Ok (fm, body).
Proof.
  destruct (split_cases data) as [H|[m [t [_ [_ [_ H]]]]]];
    rewrite H; eexists; eexists; reflexivity.
Qed.

(** X2. When no metadata is returned the body is the input, byte for
    byte: nothing is stripped from a document without a header. *)
Theorem splitFrontmatter_absent_keeps_input (data b : bytes) :
  splitFrontmatter data = Ok (None, b) -> b = data.
Proof.
  intros H.
  destruct (split_cases data) as [H'|[m [t [_ [_ [_ H']]]]]];
    rewrite H' in H; inversion H; reflexivity.
Qed.

Lemma splitFrontmatter_absent_keeps_input_witness :
  splitFrontmatter (nl "---" ++ nl "---" ++ nl "body")
  = Ok (None, nl "---" ++ nl "---" ++ nl "body")
  /\ nl "---" ++ nl "---" ++ nl "body" = nl "---" ++ nl "---" ++ nl "body".
Proof.
  split; [reflexivity|].
  apply (splitFrontmatter_absent_keeps_input
           (nl "---" ++ nl "---" ++ nl "body")).
  reflexivity.
Defined.

(** What [consume_newline] takes away is one of four separators, and it
    takes the longest of them that is there. *)
Lemma consume_newline_sep (t : bytes) :
  exists sep,
    In sep [[]; [LF]; [CR]; [CR; LF]] /\
    t = sep ++ consume_newline t /\
    (sep = [] -> hd_error (consume_newline t) <> Some LF
                 /\ hd_error (consume_newline t) <> Some CR) /\
    (sep = [CR] -> hd_error (consume_newline t) <> Some LF).
Proof.
  assert (Hne : forall x c : byte, Byte.eqb x c = false -> Some x <> Some c).
  { intros x c E H. inversion H; subst x.
    rewrite byte_eqb_refl in E. discriminate. }
  destruct t as [|x t]; cbn [consume_newline].
  - exists []. split; [cbn; auto|]. split; [reflexivity|].
    split; [intros _; split; discriminate|discriminate].
  - destruct (Byte.eqb x LF) eqn:Ex.
    { apply Byte.byte_dec_bl in Ex. subst x. exists [LF].
      split; [cbn; auto|]. split; [reflexivity|].
      split; discriminate. }
    destruct (Byte.eqb x CR) eqn:Ec.
    + apply Byte.byte_dec_bl in Ec. subst x.
      destruct t as [|y t].
      * exists [CR]. split; [cbn; auto|]. split; [reflexivity|].
        split; [discriminate|intros _; discriminate].
      * destruct (Byte.eqb y LF) eqn:Ey.
        -- apply Byte.byte_dec_bl in Ey. subst y. exists [CR; LF].
           split; [cbn; auto|]. split; [reflexivity|].
           split; discriminate.
        -- exists [CR]. split; [cbn; auto|]. split; [reflexivity|].
           split; [discriminate|]. intros _. cbn [hd_error].
           apply Hne, Ey.
    + exists []. split; [cbn; auto|]. split; [reflexivity|].
      split; [|discriminate]. intros _. cbn [hd_error].
      split; apply Hne; assumption.
Qed.

Lemma has_opening_first4 (data : bytes) :
  has_opening data = true ->
  firstn 4 data = OPEN_LF \/ firstn 4 data = lit "---" ++ [CR].
Proof.
  unfold has_opening. intros H. apply orb_true_iff in H.
  destruct H as [H|H]; apply HasPrefix_split in H; rewrite H;
    [left|right]; reflexivity.
Qed.

(** X3. A split loses no byte but the delimiters: the input is the four
    bytes of the opening delimiter, the metadata, a line feed and [---],
    at most one newline (LF, CR or CRLF, the longest that is there), and
    the body. *)
Theorem splitFrontmatter_conserves (data m b : bytes) :
  splitFrontmatter data = Ok (Some m, b) ->
  exists opening sep,
    (opening = OPEN_LF \/ opening = lit "---" ++ [CR]) /\
    In sep [[]; [LF]; [CR]; [CR; LF]] /\
    data = opening ++ m ++ CLOSE ++ sep ++ b /\
    (sep = [] -> hd_error b <> Some LF /\ hd_error b <> Some CR) /\
    (sep = [CR] -> hd_error b <> Some LF).
Proof.
  intros H. apply split_inv in H.
  destruct H as [Ho [t [Hrest [_ Hb]]]]. subst b.
  destruct (consume_newline_sep t) as [sep [Hin [Ht [Hmax1 Hmax2]]]].
  exists (firstn 4 data), sep.
  split; [apply has_opening_first4, Ho|]. split; [exact Hin|].
  split; [|split; assumption].
  rewrite <- Ht, <- Hrest. symmetry. apply firstn_skipn.
Qed.

Lemma splitFrontmatter_conserves_witness :
  splitFrontmatter (nl "---" ++ nl "title: x" ++ crlf "---" ++ lit "body")
  = Ok (Some (lit "title: x"), lit "body")
  /\ exists opening sep,
       (opening = OPEN_LF \/ opening = lit "---" ++ [CR]) /\
       In sep [[]; [LF]; [CR]; [CR; LF]] /\
       nl "---" ++ nl "title: x" ++ crlf "---" ++ lit "body"
       = opening ++ lit "title: x" ++ CLOSE ++ sep ++ lit "body" /\
       (sep = [] -> hd_error (lit "body") <> Some LF
                    /\ hd_error (lit "body") <> Some CR) /\
       (sep = [CR] -> hd_error (lit "body") <> Some LF).
Proof.
  split; [reflexivity|].
  apply (splitFrontmatter_conserves
           (nl "---" ++ nl "title: x" ++ crlf "---" ++ lit "body")).
  reflexivity.
Defined.

(** An instance found in [a] fits in [a] ... *)
Lemma Index_fits (a p : bytes) :
  0 <= strings.Index a p -> strings.Index a p + len p <= len a.
Proof.
  intros H. pose proof (Index_found a p H) as Hcut.
  pose proof (Index_range a p) as Hr.
  apply (f_equal len) in Hcut. rewrite !len_app in Hcut.
  unfold len at 2 in Hcut. rewrite length_firstn in Hcut.
  pose proof (len_nonneg
                (skipn (Z.to_nat (strings.Index a p) + List.length p) a)).
  unfold len in *. lia.
Qed.

(** ... and is still the first one when bytes are appended to [a]. *)
Lemma Index_app_mono (a t p : bytes) :
  0 <= strings.Index a p -> strings.Index (a ++ t) p = strings.Index a p.
Proof.
  induction a as [|c a IH]; intros H.
  - pose proof (Index_fits [] p H) as Hf.
    assert (Hp : p = []).
    { destruct p; [reflexivity|]. rewrite len_cons in Hf.
      pose proof (len_nonneg p). pose proof (Index_range [] p).
      unfold len in *. simpl in *. lia. }
    subst p. rewrite !Index_at_prefix by reflexivity. reflexivity.
  - pose proof (Index_fits (c :: a) p H) as Hf.
    cbn [app strings.Index] in *.
    assert (Hpre : strings.HasPrefix (c :: a ++ t) p
                   = strings.HasPrefix (c :: a) p).
    { apply (HasPrefix_app_indep (c :: a) t p).
      destruct (strings.HasPrefix (c :: a) p) eqn:E.
      - apply HasPrefix_len in E. unfold len in E. lia.
      - pose proof (len_nonneg p).
        destruct (strings.Index a p <? 0) eqn:E2; [lia|].
        apply Z.ltb_ge in E2. unfold len in Hf. lia. }
    rewrite Hpre.
    destruct (strings.HasPrefix (c :: a) p); [reflexivity|].
    destruct (strings.Index a p <? 0) eqn:E2; [lia|].
    pose proof E2 as E3. apply Z.ltb_ge in E3.
    rewrite (IH E3), E2. reflexivity.
Qed.

(** X4. The metadata returned never holds a line feed followed by
    [---]: the split is made at the first closing delimiter. *)
Theorem splitFrontmatter_metadata_has_no_delimiter (data m b : bytes) :
  splitFrontmatter data = Ok (Some m, b) -> strings.Index m CLOSE = -1.
Proof.
  intros H. apply split_inv in H.
  destruct H as [_ [t [Hrest [Hi _]]]]. rewrite Hrest in Hi.
  pose proof (Index_range m CLOSE) as Hr.
  destruct (Z_lt_ge_dec (strings.Index m CLOSE) 0) as [Hn|Hn]; [lia|].
  exfalso.
  pose proof (Index_fits m CLOSE ltac:(lia)) as Hf.
  rewrite (Index_app_mono m (CLOSE ++ t) CLOSE ltac:(lia)) in Hi.
  change (len CLOSE) with 4 in Hf. lia.
Qed.

Lemma splitFrontmatter_metadata_has_no_delimiter_witness :
  splitFrontmatter (nl "---" ++ nl "a" ++ nl "---" ++ nl "b" ++ nl "---")
  = Ok (Some (lit "a"), nl "b" ++ nl "---")
  /\ strings.Index (lit "a") CLOSE = -1.
Proof.
  split; [reflexivity|].
  apply (splitFrontmatter_metadata_has_no_delimiter
           (nl "---" ++ nl "a" ++ nl "---" ++ nl "b" ++ nl "---")
           (lit "a") (nl "b" ++ nl "---")).
  reflexivity.
Defined.

(** The delimiter holds no line feed, so whether it is a prefix is
    settled before the first line feed. *)
Lemma HasPrefix_DELIM_before_LF (x y : bytes) :
  strings.HasPrefix (x ++ LF :: y) DELIM = strings.HasPrefix x DELIM.
Proof.
  destruct x as [|a [|b [|c x]]]; cbn [app strings.HasPrefix DELIM];
    change (Byte.eqb LF x2d) with false;
    rewrite ?andb_false_l, ?andb_false_r; reflexivity.
Qed.

(** Hence an instance of the closing delimiter cannot start in [m] and
    end in the delimiter that follows [m]. *)
Lemma Index_no_straddle (m t : bytes) :
  strings.Index m CLOSE < 0 ->
  strings.Index (m ++ CLOSE ++ t) CLOSE = len m.
Proof.
  induction m as [|c m IH]; intros H.
  - apply (Index_at_prefix (CLOSE ++ t) CLOSE), HasPrefix_app.
  - cbn [app strings.Index] in *.
    assert (Hpre : strings.HasPrefix (c :: m ++ CLOSE ++ t) CLOSE
                   = strings.HasPrefix (c :: m) CLOSE).
    { change CLOSE with (LF :: DELIM). cbn [strings.HasPrefix app].
      rewrite HasPrefix_DELIM_before_LF. reflexivity. }
    rewrite Hpre.
    destruct (strings.HasPrefix (c :: m) CLOSE); [lia|].
    destruct (strings.Index m CLOSE <? 0) eqn:E.
    2:{ apply Z.ltb_ge in E. lia. }
    apply Z.ltb_lt in E. rewrite (IH E). rewrite len_cons.
    pose proof (len_nonneg m).
    destruct (len m <? 0) eqn:E2; [apply Z.ltb_lt in E2; lia|reflexivity].
Qed.

(** X5. Building a document and splitting it gives the parts back: for
    metadata that holds no line feed followed by [---], and any body,
    [splitFrontmatter] of [---\n], the metadata, [\n---\n] and the body
    returns that metadata and that body. *)
Theorem splitFrontmatter_of_reconstruct (m b : bytes) :
  strings.Index m CLOSE = -1 ->
  splitFrontmatter (reconstruct m b) = Ok (Some m, b).
Proof.
  intros H. unfold reconstruct. rewrite <- (app_assoc CLOSE [LF] b).
  rewrite (splitFrontmatter_lf m ([LF] ++ b)).
  - reflexivity.
  - apply Index_no_straddle. lia.
Qed.

Lemma splitFrontmatter_of_reconstruct_witness :
  strings.Index (nl "title: x" ++ lit "sub: --- y") CLOSE = -1
  /\ splitFrontmatter (reconstruct (nl "title: x" ++ lit "sub: --- y") (nl "# Hi"))
     = Ok (Some (nl "title: x" ++ lit "sub: --- y"), nl "# Hi").
Proof.
  split; [reflexivity|].
  apply (splitFrontmatter_of_reconstruct (nl "title: x" ++ lit "sub: --- y")).
  reflexivity.
Defined.

(** X6. After a CRLF opening line the source still skips four bytes, so
    the metadata it returns is empty or begins with the line feed of the
    opening line. *)
Theorem splitFrontmatter_crlf_metadata (data m b : bytes) :
  strings.HasPrefix data OPEN_CRLF = true ->
  splitFrontmatter data = Ok (Some m, b) ->
  m = [] \/ hd_error m = Some LF.
Proof.
  intros Hc H. apply split_inv in H.
  destruct H as [_ [t [Hrest _]]].
  apply HasPrefix_split in Hc. rewrite Hc in Hrest.
  change (skipn 4 (OPEN_CRLF ++ skipn (List.length OPEN_CRLF) data))
    with (LF :: skipn (List.length OPEN_CRLF) data) in Hrest.
  destruct m as [|c m]; [left; reflexivity|right].
  inversion Hrest. reflexivity.
Qed.

Lemma splitFrontmatter_crlf_metadata_witness :
  strings.HasPrefix (crlf "---" ++ crlf "a" ++ crlf "---") OPEN_CRLF = true
  /\ splitFrontmatter (crlf "---" ++ crlf "a" ++ crlf "---")
     = Ok (Some (LF :: lit "a" ++ [CR]), [])
  /\ (LF :: lit "a" ++ [CR] = [] \/ hd_error (LF :: lit "a" ++ [CR]) = Some LF).
Proof.
  split; [reflexivity|]. split; [reflexivity|].
  apply (splitFrontmatter_crlf_metadata
           (crlf "---" ++ crlf "a" ++ crlf "---") (LF :: lit "a" ++ [CR]) []);
    reflexivity.
Defined.

(** ** [renderBody] beyond the claims *)

(** X7. Whatever its kind, a node is rendered as the bytes of its entry
    event, then its children from first to last, then the bytes of its
    exit event; no kind reorders, repeats or leaves out a child. *)
Theorem render_enter_children_exit (k : NodeKind) (cs : list Node) (w : bytes) :
  renderTree w (node k cs)
  = w ++ on_event k true ++ flat_map (renderTree []) cs ++ on_event k false.
Proof.
  rewrite renderTree_traverse. cbn [traverse]. rewrite !visit_appends.
  rewrite (fold_traverse_appends cs).
  - rewrite <- !app_assoc. apply (f_equal (fun x => w ++ on_event k true ++ x)).
    apply (f_equal (fun x => x ++ on_event k false)).
    apply flat_map_ext. intros c. symmetry. apply renderTree_traverse.
  - apply Forall_forall. intros c _. apply traverse_appends.
Qed.

(** X8. The walk only appends: what was written before it is a prefix of
    what is written after it, what it adds does not depend on what was
    there, and it ends without an error. *)
Theorem render_only_appends (w : bytes) (doc : Node) :
  ast.Walk walker doc w = (w ++ renderTree [] doc, None).
Proof.
  unfold ast.Walk. rewrite (walkHelper_traverse walker walker_continues).
  rewrite traverse_appends, <- renderTree_traverse. reflexivity.
Qed.

(** X9. An emphasis of level two wraps its content in [#strong[ ]];
    every other level, not only level one, wraps it in [#emph[ ]]. *)
Theorem render_emphasis (Level : Z) (cs : list Node) (w : bytes) :
  renderTree w (node (Emphasis Level) cs)
  = w ++ (if Level =? 2 then lit "#strong[" else lit "#emph[")
      ++ flat_map (renderTree []) cs ++ lit "]".
Proof.
  rewrite renderTree_node. unfold on_event, visit, walker, fmt.Fprint.
  cbn [fst Kind]. destruct (Level =? 2); reflexivity.
Qed.

Lemma flat_map_map {A B C : Type} (f : A -> B) (g : B -> list C) (l : list A) :
  flat_map g (map f l) = flat_map (fun x => g (f x)) l.
Proof.
  induction l as [|x l IH]; cbn [map flat_map]; [|rewrite IH]; reflexivity.
Qed.

(** X10. A tight list, whose items hold one text block with one text
    run, is rendered one item per line, each after the marker [- ], and
    closed by an empty line. *)
Theorem render_tight_list (items : list bytes) (w : bytes) :
  renderTree w
    (node List
       (map (fun t => node ListItem [node TextBlock [node (Text t false) []]])
            items))
  = w ++ flat_map (fun t => lit "- " ++ t ++ [LF]) items ++ [LF].
Proof.
  rewrite renderTree_node, flat_map_map. cbn [on_event].
  change (on_event List true) with (@nil byte).
  change (on_event List false) with [LF].
  cbn [app]. apply (f_equal (fun x => w ++ x ++ [LF])).
  apply flat_map_ext. intros t.
  (* one item: marker, the text through the text block, line feed *)
  reflexivity.
Qed.

(** X11. A paragraph of text runs is the runs as they are, a line feed
    after each run that carries a soft line break, and two line feeds at
    the end; no byte of a run is escaped or changed. *)
Theorem render_paragraph_runs (runs : list (bytes * bool)) (w : bytes) :
  renderTree w
    (node Paragraph
       (map (fun r : bytes * bool => node (Text (fst r) (snd r)) []) runs))
  = w ++ flat_map (fun r : bytes * bool =>
                     fst r ++ (if snd r then [LF] else [])) runs
      ++ [LF; LF].
Proof.
  rewrite renderTree_node, flat_map_map.
  change (on_event Paragraph true) with (@nil byte).
  change (on_event Paragraph false) with [LF; LF].
  cbn [app]. apply (f_equal (fun x => w ++ x ++ [LF; LF])).
  apply flat_map_ext. intros [t soft].
  rewrite renderTree_node. cbn [flat_map fst snd].
  unfold on_event, visit, walker, fmt.Fprint, fmt.Fprintln.
  cbn [fst Kind]. destruct soft; rewrite ?app_nil_r, ?app_nil_l;
    reflexivity.
Qed.

(** X12. The walker never asks for the children to be skipped, so the
    children of a code span are rendered after its directive: a code span
    whose one child is the text run of its content writes the content
    twice. *)
Theorem render_code_span_children (text : bytes) (cs : list Node) (w : bytes) :
  renderTree w (node (CodeSpan text) cs)
  = w ++ lit "#raw(" ++ [QUOTE] ++ text ++ [QUOTE] ++ lit ")"
      ++ flat_map (renderTree []) cs
  /\ renderTree w (node (CodeSpan text) [node (Text text false) []])
     = w ++ lit "#raw(" ++ [QUOTE] ++ text ++ [QUOTE] ++ lit ")" ++ text.
Proof.
  assert (H : forall cs',
             renderTree w (node (CodeSpan text) cs')
             = w ++ lit "#raw(" ++ [QUOTE] ++ text ++ [QUOTE] ++ lit ")"
                 ++ flat_map (renderTree []) cs').
  { intros cs'. rewrite renderTree_node.
    unfold on_event, visit, walker, fmt.Fprint, fmt.verb_s.
    cbn [fst Kind]. rewrite ?app_nil_r, ?app_nil_l, <- ?app_assoc.
    reflexivity. }
  split; [apply H|]. rewrite H. cbn [flat_map].
  rewrite renderTree_node. unfold on_event, visit, walker, fmt.Fprint.
  cbn [fst Kind flat_map]. rewrite ?app_nil_r, ?app_nil_l. reflexivity.
Qed.

(** ** [main] beyond the claims *)

(** An input with no header, or with a header that is not closed, is all
    body. *)
Lemma split_without_header (data : bytes) :
  opening_line data = None \/
  (opening_line data <> None /\ later_delim_line data = false) ->
  splitFrontmatter data = Ok (None, data).
Proof.
  intros [Hn|[Hn Hl]].
  - apply split_no_opening, has_opening_opening_line, Hn.
  - destruct (has_opening data) eqn:Ho.
    2:{ apply has_opening_opening_line in Ho. contradiction. }
    destruct (split_cases data) as [H|[m [t [_ [Hrest [Hi _]]]]]]; [exact H|].
    pose proof (len_nonneg m).
    rewrite (closing_is_later_line data Ho ltac:(lia)) in Hl. discriminate.
Qed.

Section ProgramFurther.
Variable Parse : bytes -> Node.
Variable yamlUnmarshal : bytes -> bytes + Frontmatter.
Variable Quote : bytes -> bytes.
Variable manifestData exampleData : bytes.
Variable manifestVersion : option bytes.

(** X13. With any of the three flags set the run does not depend on
    standard input, ends with status zero and writes nothing to standard
    error; [-version] wins over [-manifest], which wins over [-example],
    and a manifest without a version prints nothing. *)
Theorem main_flag_run (flags : Flags) :
  showVersion flags || showManifest flags || showExample flags = true ->
  exists p,
    (forall stdin,
        main Parse yamlUnmarshal Quote manifestData exampleData
          manifestVersion flags stdin = Ok p) /\
    ExitCode p = 0 /\ Stderr p = [] /\
    Stdout p
    = (if showVersion flags then
         match manifestVersion with
         | Some v => v ++ [LF]
         | None => []
         end
       else if showManifest flags then manifestData else exampleData).
Proof.
  intros H. unfold main.
  destruct (showVersion flags); [eexists; repeat split|].
  destruct (showManifest flags); [eexists; repeat split|].
  destruct (showExample flags); [eexists; repeat split|discriminate].
Qed.


(** X15. A pipeline run that ends with status zero has written the
    preamble for the decoded metadata (the zero record when the metadata
    block is empty or absent) and then the rendering of the parsed body,
    and nothing else. *)
Theorem main_success_output (input : bytes) (p : Process) :
  main Parse yamlUnmarshal Quote manifestData exampleData manifestVersion
    no_flags (input, None) = Ok p ->
  ExitCode p = 0 ->
  exists fm body meta,
    splitFrontmatter input = Ok (fm, body) /\
    (nil_as_empty fm = [] -> meta = {| Title := [] |}) /\
    (nil_as_empty fm <> [] -> yamlUnmarshal (nil_as_empty fm) = inr meta) /\
    Stdout p
    = unlines (fixed_preamble
                 ++ (if is_empty (Title meta) then []
                     else title_block Quote (Title meta)))
        ++ renderTree [] (Parse body).
Proof.
  intros Hp Hz. unfold main, no_flags in Hp. cbn [showVersion showManifest
    showExample] in Hp.
  destruct (splitFrontmatter_total input) as [[fm body] Hs].
  rewrite Hs in Hp. cbn [bind] in Hp.
  assert (Hout : forall meta,
             renderBody Parse (writePageSetup Quote [] meta) body
             = unlines (fixed_preamble
                          ++ (if is_empty (Title meta) then []
                              else title_block Quote (Title meta)))
                 ++ renderTree [] (Parse body)).
  { intros meta. unfold renderBody.
    rewrite renderTree_traverse, traverse_appends, <- renderTree_traverse.
    f_equal.
    unfold writePageSetup, fixed_preamble, title_block, unlines.
    unfold fmt.Fprintln, fmt.Fprint, fmt.verb_s.
    unfold PAGE_SIZE, TEXT_FONT, PAR_STYLE, BLANK, VSPACE,
      title_binding, title_heading.
    destruct (Title meta) as [|c t]; cbn [is_empty];
      rewrite flat_map_app; cbn [flat_map];
      rewrite ?app_nil_r, ?app_nil_l, <- ?app_assoc; reflexivity. }
  destruct (nil_as_empty fm) as [|c m] eqn:Hfm.
  - change (0 <? len []) with false in Hp. cbv iota in Hp.
    inversion Hp; subst p. exists fm, body, {| Title := [] |}.
    rewrite Hfm. cbn [Stdout].
    split; [exact Hs|]. split; [reflexivity|]. split; [congruence|].
    apply Hout.
  - replace (0 <? len (c :: m)) with true in Hp
      by (symmetry; apply Z.ltb_lt; rewrite len_cons;
          pose proof (len_nonneg m); lia).
    destruct (yamlUnmarshal (c :: m)) as [e|meta] eqn:Hy.
    + inversion Hp; subst p. cbn in Hz. discriminate.
    + inversion Hp; subst p. exists fm, body, meta.
      rewrite Hfm. cbn [Stdout].
      split; [exact Hs|]. split; [discriminate|]. split; [intros _; exact Hy|].
      apply Hout.
Qed.

(** X16. When the input has no opening [---] line, or has one and no
    later line beginning with [---], the decoder is not consulted, the
    whole input goes to the parser and the output is the four fixed
    preamble lines followed by its rendering. *)
Theorem main_without_header (input : bytes) :
  opening_line input = None \/
  (opening_line input <> None /\ later_delim_line input = false) ->
  main Parse yamlUnmarshal Quote manifestData exampleData manifestVersion
    no_flags (input, None)
  = Ok {| Stdout := unlines fixed_preamble ++ renderTree [] (Parse input);
          Stderr := []; ExitCode := 0 |}.
Proof.
  intros H. unfold main, no_flags.
  cbn [showVersion showManifest showExample].
  rewrite (split_without_header input H). cbn [bind nil_as_empty].
  change (0 <? len []) with false. cbv iota.
  unfold renderBody.
  rewrite renderTree_traverse, traverse_appends, <- renderTree_traverse.
  reflexivity.
Qed.

End ProgramFurther.

Lemma main_flag_run_witness :
  let flags := {| showManifest := true; showExample := true;
                  showVersion := false |} in
  showVersion flags || showManifest flags || showExample flags = true
  /\ exists p,
       (forall stdin, sample_main flags stdin = Ok p) /\
       ExitCode p = 0 /\ Stderr p = [] /\
       Stdout p
       = (if showVersion flags then
            match @None bytes with
            | Some v => v ++ [LF]
            | None => []
            end
          else if showManifest flags then nl "{}" else nl "# Example").
Proof.
  cbv zeta. split; [reflexivity|].
  apply (main_flag_run sample_Parse sample_yamlUnmarshal sample_Quote
           (nl "{}") (nl "# Example") None
           {| showManifest := true; showExample := true;
              showVersion := false |}).
  reflexivity.
Defined.

Lemma main_success_output_witness :
  let input := nl "---" ++ nl "T" ++ nl "---" ++ lit "body" in
  let p := {| Stdout := unlines (fixed_preamble
                                   ++ title_block sample_Quote (lit "T"))
                          ++ lit "body" ++ [LF; LF];
              Stderr := []; ExitCode := 0 |} in
  sample_main no_flags (input, None) = Ok p
  /\ ExitCode p = 0
  /\ exists fm body meta,
       splitFrontmatter input = Ok (fm, body) /\
       (nil_as_empty fm = [] -> meta = {| Title := [] |}) /\
       (nil_as_empty fm <> [] ->
        sample_yamlUnmarshal (nil_as_empty fm) = inr meta) /\
       Stdout p
       = unlines (fixed_preamble
                    ++ (if is_empty (Title meta) then []
                        else title_block sample_Quote (Title meta)))
           ++ renderTree [] (sample_Parse body).
Proof.
  cbv zeta. split; [reflexivity|]. split; [reflexivity|].
  apply (main_success_output sample_Parse sample_yamlUnmarshal sample_Quote
           (nl "{}") (nl "# Example") None
           (nl "---" ++ nl "T" ++ nl "---" ++ lit "body"));
    reflexivity.
Defined.

Lemma main_without_header_witness :
  let input := nl "---" ++ nl "title: x" ++ nl "# Hi" in
  (opening_line input = None \/
   (opening_line input <> None /\ later_delim_line input = false))
  /\ sample_main no_flags (input, None)
     = Ok {| Stdout := unlines fixed_preamble
                         ++ renderTree [] (sample_Parse input);
             Stderr := []; ExitCode := 0 |}.
Proof.
  cbv zeta.
  assert (H : opening_line (nl "---" ++ nl "title: x" ++ nl "# Hi") = None \/
              (opening_line (nl "---" ++ nl "title: x" ++ nl "# Hi") <> None /\
               later_delim_line (nl "---" ++ nl "title: x" ++ nl "# Hi")
               = false)).
  { right. split; [discriminate|reflexivity]. }
  split; [exact H|].
  apply (main_without_header sample_Parse sample_yamlUnmarshal sample_Quote
           (nl "{}") (nl "# Example") None _ H).
Defined.
